(** * RedisList output writer (lib/output/writer/redis_list.go)

    A shallow embedding of the Redis list writer: the connection handle
    kept behind [connMut], [Connect], [Write], [disconnect] and the close
    operations, run against an arbitrary remote store.

    The Go standard library and the go-redis client are outside the
    repository.  They appear here as follows.
    - [strconv.Atoi]: modelled by its documented behaviour on a 64-bit
      target (optional sign, decimal digits, result within [int]).
    - [url.Parse]: a parameter of [NewRedisList]; [url.ParseAuthority] is a
      reference instance for plain [scheme://[user[:password]@]host[/path]]
      endpoints, used to run the model on concrete endpoints.
    - the redis server: a parameter [remote] that decides, from the
      history of the run and the request, whether the request fails.
    - [sync.RWMutex]: a writer flag and a reader count; acquiring a lock
      that is not available, or releasing one that is not held, halts the
      (sequential) run. *)

From Stdlib Require Import String Ascii ZArith List Lia Bool Arith.
From Stdlib Require Import DecimalString DecimalN DecimalPos.
From ExtLib Require Import Structures.Monad Structures.MonadState Structures.MonadExc.
From ExtLib Require Import Data.Monads.StateMonad Data.Monads.EitherMonad.
Import ListNotations.
Import MonadNotation.

#[local] Open Scope string_scope.
#[local] Open Scope monad_scope.
#[local] Existing Instance Monad_stateT.

(** ** Strings as Go sees them: sequences of bytes *)

(** [s[n:]] for [n <= len(s)]. *)
Fixpoint drop (n : nat) (s : string) : string :=
  match n, s with
  | O, _ => s
  | S n', String _ s' => drop n' s'
  | S _, EmptyString => EmptyString
  end.

Definition newline : string := String (ascii_of_nat 10) EmptyString.

(** ** strconv *)

Module strconv.

Definition intSize : Z := 64.
Definition maxInt : Z := 2 ^ (intSize - 1) - 1.
Definition minInt : Z := - 2 ^ (intSize - 1).

Definition digit (c : ascii) : option Z :=
  let n := Z.of_nat (nat_of_ascii c) in
  if (48 <=? n)%Z && (n <=? 57)%Z then Some (n - 48)%Z else None.

Fixpoint digits (acc : Z) (s : string) : option Z :=
  match s with
  | EmptyString => Some acc
  | String c s' =>
      match digit c with
      | Some d => digits (acc * 10 + d) s'
      | None => None
      end
  end.

(** [strconv.Atoi]: [Some n] is [(n, nil)], [None] is a non-nil error
    (syntax or range; the writer only tests [err != nil]). *)
Definition Atoi (s : string) : option Z :=
  let '(neg, body) :=
    match s with
    | String c t =>
        if Ascii.eqb c "-" then (true, t)
        else if Ascii.eqb c "+" then (false, t)
        else (false, s)
    | EmptyString => (false, s)
    end in
  match body with
  | EmptyString => None
  | _ =>
      match digits 0 body with
      | Some n =>
          let v := if neg then (- n)%Z else n in
          if (minInt <=? v)%Z && (v <=? maxInt)%Z then Some v else None
      | None => None
      end
  end.

(** Some byte of [s] is not a decimal digit. *)
Fixpoint has_non_digit (s : string) : bool :=
  match s with
  | EmptyString => false
  | String c s' =>
      match digit c with
      | Some _ => has_non_digit s'
      | None => true
      end
  end.

(** The decimal numeral of a natural number, as [strconv.Itoa] prints it. *)
Definition Itoa (n : N) : string := NilEmpty.string_of_uint (N.to_uint n).

End strconv.

(** ** net/url *)

Module url.

Record Userinfo := {
  username : string;
  password : string;
  passwordSet : bool
}.

(** The method [Password] of [Userinfo]. *)
Definition Password (u : Userinfo) : string * bool :=
  (password u, passwordSet u).

Record URL := {
  Scheme : string;
  User : option Userinfo;
  Host : string;
  Path : string
}.

(** What [url.Parse] returns: the URL, or the message of its error. *)
Definition result : Type := URL + string.

Definition isCTL (c : ascii) : bool :=
  let n := nat_of_ascii c in ((n <? 32) || (n =? 127))%nat.

Fixpoint anyb (p : ascii -> bool) (s : string) : bool :=
  match s with
  | EmptyString => false
  | String c s' => p c || anyb p s'
  end.

(** [s] cut at the first byte satisfying [p]: the part before it and the
    part from it on. *)
Fixpoint break (p : ascii -> bool) (s : string) : string * string :=
  match s with
  | EmptyString => (EmptyString, EmptyString)
  | String c s' =>
      if p c then (EmptyString, s)
      else let '(a, b) := break p s' in (String c a, b)
  end.

(** [s] cut at the last occurrence of [c], which is dropped. *)
Fixpoint rbreak (c : ascii) (s : string) : option (string * string) :=
  match s with
  | EmptyString => None
  | String d s' =>
      match rbreak c s' with
      | Some (a, b) => Some (String d a, b)
      | None => if Ascii.eqb d c then Some (EmptyString, s') else None
      end
  end.

Definition isLetter (c : ascii) : bool :=
  let n := nat_of_ascii c in
  (((65 <=? n) && (n <=? 90)) || ((97 <=? n) && (n <=? 122)))%nat.

Definition isDigit (c : ascii) : bool :=
  let n := nat_of_ascii c in ((48 <=? n) && (n <=? 57))%nat.

Definition toLower (c : ascii) : ascii :=
  let n := nat_of_ascii c in
  if ((65 <=? n) && (n <=? 90))%nat then ascii_of_nat (n + 32) else c.

Fixpoint ToLower (s : string) : string :=
  match s with
  | EmptyString => EmptyString
  | String c s' => String (toLower c) (ToLower s')
  end.

(** Bytes that need no escaping anywhere in an endpoint. *)
Definition plain (c : ascii) : bool :=
  isLetter c || isDigit c ||
  Ascii.eqb c "-" || Ascii.eqb c "." || Ascii.eqb c "_" || Ascii.eqb c "~".

Definition all_plain (s : string) : bool := negb (anyb (fun c => negb (plain c)) s).

Definition validScheme (s : string) : bool :=
  match s with
  | EmptyString => false
  | String c _ =>
      isLetter c &&
      negb (anyb (fun c => negb (isLetter c || isDigit c || Ascii.eqb c "+"
                                 || Ascii.eqb c "-" || Ascii.eqb c ".")) s)
  end.

(** Reference instance of [url.Parse] for endpoints of the form
    [scheme://[user[:password]@]host[:port][/path]] whose components
    need no escaping.  On these it yields the fields [url.Parse] yields;
    a control byte and a missing scheme are the two parse failures it
    reproduces.  Every other endpoint is outside its domain and is
    answered with an error of its own; no general statement below
    depends on this instance. *)
Definition ParseAuthority (rawurl : string) : result :=
  if anyb isCTL rawurl then inr "net/url: invalid control character in URL"
  else
    let '(scheme, rest) := break (fun c => Ascii.eqb c ":") rawurl in
    match scheme, rest with
    | EmptyString, String ":" _ => inr "missing protocol scheme"
    | _, String ":" (String "/" (String "/" rest')) =>
        let '(authority, path) := break (fun c => Ascii.eqb c "/") rest' in
        let '(userinfo, host) :=
          match rbreak "@" authority with
          | Some (ui, h) => (Some ui, h)
          | None => (None, authority)
          end in
        let user :=
          match userinfo with
          | None => Some None
          | Some ui =>
              let '(name, pw) := break (fun c => Ascii.eqb c ":") ui in
              match pw with
              | EmptyString =>
                  if all_plain name
                  then Some (Some {| username := name; password := "";
                                     passwordSet := false |})
                  else None
              | String _ pw' =>
                  if all_plain name && all_plain pw'
                  then Some (Some {| username := name; password := pw';
                                     passwordSet := true |})
                  else None
              end
          end in
        let '(hostname, port) := break (fun c => Ascii.eqb c ":") host in
        let host_ok :=
          all_plain hostname &&
          match port with
          | EmptyString => true
          | String _ p => negb (anyb (fun c => negb (isDigit c)) p)
          end in
        let path_ok :=
          negb (anyb (fun c => negb (plain c || Ascii.eqb c "/")) path) in
        match user with
        | Some u =>
            if validScheme scheme && host_ok && path_ok
            then inl {| Scheme := ToLower scheme; User := u;
                        Host := host; Path := path |}
            else inr "endpoint outside the reference parser"
        | None => inr "endpoint outside the reference parser"
        end
    | _, _ => inr "endpoint outside the reference parser"
    end.

End url.

(** ** go-redis *)

Module redis.

Record Options := {
  Addr : string;
  Network : string;
  DB : Z;
  Password : string
}.

(** A [*redis.Client]: the identity of the allocation and the options it
    was built from. *)
Record Client := {
  id : nat;
  opt : Options
}.

(** The commands the writer sends through a client. *)
Inductive request :=
| Ping (c : Client)
| RPush (c : Client) (key : string) (value : list Byte.byte)
| Close (c : Client).

End redis.

(** ** lib/types *)

(** Go's [error] values met in this file. *)
Inductive error :=
| ErrNotConnected              (* types.ErrNotConnected *)
| Errorf (msg : string)        (* built with fmt.Errorf *)
| UrlError (msg : string)      (* returned by url.Parse *)
| RedisError (msg : string).   (* returned by the redis client *)

Module types.

(** Modelled from the spec: the message container of lib/types and
    lib/message, which is not among the sources.  A message is an
    ordered sequence of opaque binary parts; [Get] gives the raw bytes
    of a part. *)
Record Part := { Get : list Byte.byte }.

Record Message := { parts : list Part }.

Section Iter.
Context {m : Type -> Type} {Mm : Monad m}.

(** Modelled from the spec: the loop of [Iter] over the parts [ps], the
    first of which has index [i]. *)
Fixpoint Iter_from (i : nat) (ps : list Part)
         (f : nat -> Part -> m (option error)) : m (option error) :=
  match ps with
  | [] => ret None
  | p :: ps' =>
      err <- f i p ;;
      match err with
      | Some e => ret (Some e)
      | None => Iter_from (S i) ps' f
      end
  end.

(** Modelled from the spec: the method [Iter] of [types.Message]
    (lib/message, not among the sources).  It visits the parts in
    order, calls [f] with the index and the part, stops at the first
    part for which [f] returns an error and returns that error; it
    returns [nil] when no call fails. *)
Definition Iter (msg : Message) (f : nat -> Part -> m (option error))
  : m (option error) :=
  Iter_from 0 (parts msg) f.
End Iter.

End types.

(** ** The writer *)

Record RedisListConfig := {
  URL : string;
  Key : string;
  MaxInFlight : Z
}.

Definition NewRedisListConfig : RedisListConfig :=
  {| URL := "tcp://localhost:6379"; Key := "benthos_list"; MaxInFlight := 1 |}.

(** [sync.RWMutex]: whether the exclusive lock is held, and how many
    shared holders there are. *)
Record RWMutex := {
  writer : bool;
  readerCount : nat
}.

Definition unlocked : RWMutex := {| writer := false; readerCount := 0 |}.

(** The struct [RedisList]; [log] and [stats] are rendered by the [Logged]
    events of the run. *)
Record RedisList := {
  url : url.URL;
  conf : RedisListConfig;
  client : option redis.Client;
  connMut : RWMutex
}.

Definition set_client (c : option redis.Client) (r : RedisList) : RedisList :=
  {| url := url r; conf := conf r; client := c; connMut := connMut r |}.

Definition set_connMut (m : RWMutex) (r : RedisList) : RedisList :=
  {| url := url r; conf := conf r; client := client r; connMut := m |}.

Inductive level := Info | Error.

(** What a run does that is visible outside the writer: commands sent to
    the store, with the error they came back with ([None] for success), and
    lines handed to the logger. *)
Inductive event :=
| Call (q : redis.request) (err : option string)
| Logged (l : level) (line : string).

(** The writer [this], the events so far (oldest first) and the number of
    clients allocated so far. *)
Record state := {
  this : RedisList;
  trace : list event;
  allocated : nat
}.

(** A goroutine that waits for a lock nobody will release, or releases a
    lock that is not held, does not return. *)
Inductive halt := Deadlock | UnlockOfUnlocked.

Definition M : Type -> Type := stateT state (sum halt).

Definition run {A} (c : M A) (s : state) : halt + (A * state) := runStateT c s.

(** [NewRedisList], given [url.Parse]. *)
Definition NewRedisList (Parse : string -> url.result) (conf : RedisListConfig)
  : RedisList + error :=
  match Parse (URL conf) with
  | inr err => inr (UrlError err)
  | inl u => inl {| url := u; conf := conf; client := None; connMut := unlocked |}
  end.

(** The state in which a freshly built writer starts. *)
Definition boot (r : RedisList) : state :=
  {| this := r; trace := []; allocated := 0 |}.

(** The database index of lines 88-98 of [Connect]: 0 unless the path has
    more than its leading byte, which is stripped before [Atoi]. *)
Definition redisDB (path : string) : Z + error :=
  if (1 <? String.length path)%nat then
    match strconv.Atoi (drop 1 path) with
    | Some n => inl n
    | None => inr (Errorf ("invalid Redis DB, can't parse '" ++ path ++ "'"))
    end
  else inl 0%Z.

Section Writer.

(** The store and the network: whether the request fails, given what
    happened so far. *)
Variable remote : list event -> redis.request -> option string.

Definition self : M RedisList := s <- get ;; ret (this s).

Definition update (f : RedisList -> RedisList) : M unit :=
  s <- get ;;
  put {| this := f (this s); trace := trace s; allocated := allocated s |}.

Definition emit (e : event) : M unit :=
  s <- get ;;
  put {| this := this s; trace := trace s ++ [e]; allocated := allocated s |}.

Definition Lock : M unit :=
  r <- self ;;
  if writer (connMut r) || negb (readerCount (connMut r) =? 0)%nat
  then raise Deadlock
  else update (set_connMut {| writer := true; readerCount := 0 |}).

Definition Unlock : M unit :=
  r <- self ;;
  if writer (connMut r)
  then update (set_connMut {| writer := false;
                              readerCount := readerCount (connMut r) |})
  else raise UnlockOfUnlocked.

Definition RLock : M unit :=
  r <- self ;;
  if writer (connMut r)
  then raise Deadlock
  else update (set_connMut {| writer := false;
                              readerCount := S (readerCount (connMut r)) |}).

Definition RUnlock : M unit :=
  r <- self ;;
  match readerCount (connMut r) with
  | O => raise UnlockOfUnlocked
  | S n => update (set_connMut {| writer := writer (connMut r);
                                  readerCount := n |})
  end.

(** Send a command; the store's answer is recorded and returned. *)
Definition call (q : redis.request) : M (option string) :=
  s <- get ;;
  let err := remote (trace s) q in
  emit (Call q err) ;;
  ret err.

Definition Infof (line : string) : M unit := emit (Logged Info line).
Definition Errorf_log (line : string) : M unit := emit (Logged Error line).

(** [redis.NewClient]: a fresh client; nothing is sent yet. *)
Definition NewClient (o : redis.Options) : M redis.Client :=
  s <- get ;;
  put {| this := this s; trace := trace s; allocated := S (allocated s) |} ;;
  ret {| redis.id := allocated s; redis.opt := o |}.

(** [Connect], lines 79-115. *)
Definition Connect : M (option error) :=
  Lock ;;
  r <- self ;;
  let pass :=
    match url.User (url r) with
    | Some u => fst (url.Password u)
    | None => ""
    end in
  res <-
    match redisDB (url.Path (url r)) with
    | inr err => ret (Some err)
    | inl db =>
        c <- NewClient {| redis.Addr := url.Host (url r);
                          redis.Network := url.Scheme (url r);
                          redis.DB := db;
                          redis.Password := pass |} ;;
        pong <- call (redis.Ping c) ;;
        match pong with
        | Some err => ret (Some (RedisError err))
        | None =>
            Infof ("Pushing messages to Redis list: " ++ Key (conf r) ++ newline) ;;
            update (set_client (Some c)) ;;
            ret None
        end
    end ;;
  Unlock ;;
  ret res.

Definition ConnectWithContext : M (option error) := Connect.

(** [disconnect], lines 146-155. *)
Definition disconnect : M (option error) :=
  Lock ;;
  r <- self ;;
  res <-
    match client r with
    | Some c =>
        err <- call (redis.Close c) ;;
        update (set_client None) ;;
        ret (option_map RedisError err)
    | None => ret None
    end ;;
  Unlock ;;
  ret res.

(** The function literal that [Write] hands to [Iter], lines 135-142;
    [c] is the client that [Write] has read. *)
Definition Write_part (c : redis.Client) (i : nat) (p : types.Part)
  : M (option error) :=
  r <- self ;;
  pushed <- call (redis.RPush c (Key (conf r)) (types.Get p)) ;;
  match pushed with
  | Some err =>
      disconnect ;;
      Errorf_log ("Error from redis: " ++ err ++ newline) ;;
      ret (Some ErrNotConnected)
  | None => ret None
  end.

(** [Write], lines 126-143. *)
Definition Write (msg : types.Message) : M (option error) :=
  RLock ;;
  r <- self ;;
  let client := client r in
  RUnlock ;;
  match client with
  | None => ret (Some ErrNotConnected)
  | Some c => types.Iter msg (Write_part c)
  end.

Definition WriteWithContext (msg : types.Message) : M (option error) :=
  Write msg.

(** [CloseAsync] starts [disconnect] in a goroutine of its own and
    returns nothing.  Here the goroutine runs to its end at the call;
    what [disconnect] returns has no receiver. *)
Definition CloseAsync : M unit :=
  disconnect ;;
  ret tt.

Definition WaitForClose (timeout : Z) : M (option error) := ret None.

End Writer.

(** ** States, histories and runs used in the statements *)

(** No goroutine holds [connMut]: the situation between two calls of a
    sequential caller. *)
Definition idle (s : state) : Prop := connMut (this s) = unlocked.

Definition with_trace (s : state) (t : list event) : state :=
  {| this := this s; trace := t; allocated := allocated s |}.

Definition with_client (s : state) (c : option redis.Client) : state :=
  {| this := set_client c (this s); trace := trace s; allocated := allocated s |}.

(** The events of [parts] pushed through [c] to [key], all acknowledged. *)
Definition pushes (c : redis.Client) (key : string) (ps : list types.Part)
  : list event :=
  map (fun p => Call (redis.RPush c key (types.Get p)) None) ps.

(** The store acknowledges the pushes of [ps], sent one after the other
    after the history [hist]. *)
Fixpoint accepts (remote : list event -> redis.request -> option string)
         (hist : list event) (c : redis.Client) (key : string)
         (ps : list types.Part) : bool :=
  match ps with
  | [] => true
  | p :: ps' =>
      let q := redis.RPush c key (types.Get p) in
      match remote hist q with
      | None => accepts remote (hist ++ [Call q None]) c key ps'
      | Some _ => false
      end
  end.

(** An operation started with the lock free leaves it free, and leaves the
    endpoint and the configuration as they were. *)
Definition settled (s s' : state) : Prop :=
  idle s' /\ url (this s') = url (this s) /\ conf (this s') = conf (this s).

(** The state a failed push of [p] leaves behind: the push, the close of
    the installed client [c] and the log line. *)
Definition torn_down (remote : list event -> redis.request -> option string)
           (s : state) (c : redis.Client) (p : types.Part) (e : string) : state :=
  let t1 := (trace s ++ [Call (redis.RPush c (Key (conf (this s))) (types.Get p))
                              (Some e)])%list in
  with_client
    (with_trace s (t1 ++ [Call (redis.Close c) (remote t1 (redis.Close c));
                          Logged Error ("Error from redis: " ++ e ++ newline)]))
    None.

(** The options [Connect] builds for the database index [db]. *)
Definition dial_options (r : RedisList) (db : Z) : redis.Options :=
  {| redis.Addr := url.Host (url r);
     redis.Network := url.Scheme (url r);
     redis.DB := db;
     redis.Password := match url.User (url r) with
                       | Some u => url.password u
                       | None => ""
                       end |}.

(** The client [Connect] allocates in state [s]. *)
Definition next_client (s : state) (db : Z) : redis.Client :=
  {| redis.id := allocated s; redis.opt := dial_options (this s) db |}.

(** The calls a sequential caller can make. *)
Inductive op :=
| DoConnect
| DoWrite (msg : types.Message)
| DoDisconnect
| DoCloseAsync
| DoWaitForClose (timeout : Z).

Definition perform (remote : list event -> redis.request -> option string)
           (o : op) : M (option error) :=
  match o with
  | DoConnect => Connect remote
  | DoWrite msg => Write remote msg
  | DoDisconnect => disconnect remote
  | DoCloseAsync => CloseAsync remote ;; ret None
  | DoWaitForClose t => WaitForClose t
  end.

(** The calls of [ops] one after the other; the list of what they return. *)
Fixpoint perform_all (remote : list event -> redis.request -> option string)
         (ops : list op) : M (list (option error)) :=
  match ops with
  | [] => ret []
  | o :: ops' =>
      res <- perform remote o ;;
      rest <- perform_all remote ops' ;;
      ret (res :: rest)
  end.

(** What a call returns on a writer that has no client and whose endpoint
    fails to resolve with [err]. *)
Definition answer_unresolved (err : error) (o : op) : option error :=
  match o with
  | DoConnect => Some err
  | DoWrite _ => Some ErrNotConnected
  | DoDisconnect | DoCloseAsync | DoWaitForClose _ => None
  end.


(** What the caller of an operation can see of it: the value returned,
    the handle left in the writer and the lines logged. *)
Definition log_lines (t : list event) : list (level * string) :=
  flat_map (fun e => match e with
                     | Logged l line => [(l, line)]
                     | Call _ _ => []
                     end) t.


(** The store commands of a history. *)
Definition calls (t : list event) : list redis.request :=
  flat_map (fun e => match e with
                     | Call q _ => [q]
                     | Logged _ _ => []
                     end) t.

(** ** Sample endpoints, stores and messages *)

Definition jobs_conf : RedisListConfig :=
  {| URL := "tcp://:secret@cache-host:6379/2"; Key := "jobs"; MaxInFlight := 1 |}.

Definition jobs_url : url.URL :=
  {| url.Scheme := "tcp";
     url.User := Some {| url.username := ""; url.password := "secret";
                         url.passwordSet := true |};
     url.Host := "cache-host:6379";
     url.Path := "/2" |}.

Definition jobs_sink : RedisList :=
  {| url := jobs_url; conf := jobs_conf; client := None; connMut := unlocked |}.

Definition jobs_client : redis.Client :=
  {| redis.id := 0;
     redis.opt := {| redis.Addr := "cache-host:6379"; redis.Network := "tcp";
                     redis.DB := 2; redis.Password := "secret" |} |}.

(** [jobs_sink] after a successful [Connect]. *)
Definition jobs_connected : state :=
  {| this := set_client (Some jobs_client) jobs_sink;
     trace := [Call (redis.Ping jobs_client) None;
               Logged Info ("Pushing messages to Redis list: jobs" ++ newline)];
     allocated := 1 |}.

Definition part_of (s : string) : types.Part :=
  {| types.Get := list_byte_of_string s |}.

Definition three_parts : types.Message :=
  {| types.parts := [part_of "alpha"; part_of "beta"; part_of "gamma"] |}.

(** A store that acknowledges everything. *)
Definition healthy : list event -> redis.request -> option string :=
  fun _ _ => None.

(** A store that is unreachable: every command fails. *)
Definition unreachable : list event -> redis.request -> option string :=
  fun _ _ => Some "dial tcp: connection refused".

(** A connection that drops once [n] events have happened: later pushes
    fail with [EOF], and closing the client fails when [close_fails]. *)
Definition drops_after (n : nat) (close_fails : bool)
  : list event -> redis.request -> option string :=
  fun hist q =>
    match q with
    | redis.RPush _ _ _ => if (n <=? List.length hist)%nat then Some "EOF" else None
    | redis.Close _ => if close_fails then Some "use of closed network connection" else None
    | redis.Ping _ => None
    end.

Definition abc_conf : RedisListConfig :=
  {| URL := "tcp://localhost:6379/abc"; Key := "benthos_list"; MaxInFlight := 1 |}.

Definition abc_sink : RedisList :=
  {| url := {| url.Scheme := "tcp"; url.User := None;
               url.Host := "localhost:6379"; url.Path := "/abc" |};
     conf := abc_conf; client := None; connMut := unlocked |}.

(** ** Histories of clients *)

(** The client a command goes through. *)
Definition client_of (q : redis.request) : redis.Client :=
  match q with
  | redis.Ping c => c
  | redis.RPush c _ _ => c
  | redis.Close c => c
  end.

(** The ids of the clients a history has closed. *)
Definition closed (t : list event) : list nat :=
  flat_map (fun e => match e with
                     | Call (redis.Close c) _ => [redis.id c]
                     | _ => []
                     end) t.




(** A store that acknowledges every push. *)
Definition acknowledging (remote : list event -> redis.request -> option string)
  : Prop :=
  forall hist c key v, remote hist (redis.RPush c key v) = None.

(** A store that answers every probe. *)
Definition answers_ping (remote : list event -> redis.request -> option string)
  : Prop :=
  forall hist c, remote hist (redis.Ping c) = None.

(** The push of a part through [c] to [key]. *)
Definition rpush (c : redis.Client) (key : string) (p : types.Part)
  : redis.request :=
  redis.RPush c key (types.Get p).

(** A store that fails every push whose payload is [bad], and every
    close. *)
Definition rejects_payload (bad : list Byte.byte)
  : list event -> redis.request -> option string :=
  fun _ q =>
    match q with
    | redis.RPush _ _ v =>
        if list_eq_dec Byte.byte_eq_dec v bad then Some "ERR value rejected" else None
    | redis.Close _ => Some "use of closed network connection"
    | redis.Ping _ => None
    end.



(** What a call other than [Connect] returns on a writer without a
    client. *)
Definition answer_unconnected (o : op) : option error :=
  match o with
  | DoWrite _ => Some ErrNotConnected
  | DoConnect | DoDisconnect | DoCloseAsync | DoWaitForClose _ => None
  end.

Definition is_Connect (o : op) : bool :=
  match o with
  | DoConnect => true
  | _ => false
  end.

(** * Properties *)

Ltac open_state s :=
  let u := fresh "u" in let cf := fresh "cf" in let cl := fresh "cl" in
  let mu := fresh "mu" in let tr := fresh "tr" in let al := fresh "al" in
  destruct s as [[u cf cl mu] tr al]; unfold idle in *; cbn in *; subst.

Section Runs.

Variable remote : list event -> redis.request -> option string.

Lemma disconnect_run (s : state) :
  idle s ->
  run (disconnect remote) s =
  inr match client (this s) with
      | Some c =>
          let err := remote (trace s) (redis.Close c) in
          (option_map RedisError err,
           with_client (with_trace s (trace s ++ [Call (redis.Close c) err])) None)
      | None => (None, s)
      end.
Proof.
  intros H. open_state s. destruct cl as [c|]; reflexivity.
Qed.

Lemma Write_part_ok (c : redis.Client) (i : nat) (p : types.Part) (s : state) :
  remote (trace s) (redis.RPush c (Key (conf (this s))) (types.Get p)) = None ->
  run (Write_part remote c i p) s =
  inr (None, with_trace s (trace s ++ pushes c (Key (conf (this s))) [p])).
Proof.
  intros H. unfold run, Write_part, call. cbn. rewrite H. reflexivity.
Qed.

Lemma Write_part_fail (c : redis.Client) (i : nat) (p : types.Part)
      (e : string) (s : state) :
  idle s ->
  client (this s) = Some c ->
  remote (trace s) (redis.RPush c (Key (conf (this s))) (types.Get p)) = Some e ->
  run (Write_part remote c i p) s = inr (Some ErrNotConnected, torn_down remote s c p e).
Proof.
  intros Hi Hc H. open_state s.
  unfold run, Write_part, call, torn_down. cbn. rewrite H. cbn.
  rewrite <- app_assoc. reflexivity.
Qed.

Lemma Iter_from_step (i : nat) (p : types.Part) (ps : list types.Part)
      (f : nat -> types.Part -> M (option error)) (s : state) :
  run (types.Iter_from i (p :: ps) f) s =
  match run (f i p) s with
  | inl h => inl h
  | inr (Some e, s') => inr (Some e, s')
  | inr (None, s') => run (types.Iter_from (S i) ps f) s'
  end.
Proof.
  unfold run. cbn. destruct (runStateT (f i p) s) as [h|[[e|] s']]; reflexivity.
Qed.

Lemma Iter_all_pushed (c : redis.Client) (ps : list types.Part) :
  forall (i : nat) (s : state),
    accepts remote (trace s) c (Key (conf (this s))) ps = true ->
    run (types.Iter_from i ps (Write_part remote c)) s =
    inr (None, with_trace s (trace s ++ pushes c (Key (conf (this s))) ps)).
Proof.
  induction ps as [|p ps IH]; intros i s Hacc.
  - cbn. rewrite app_nil_r. destruct s; reflexivity.
  - cbn [accepts] in Hacc.
    destruct (remote (trace s) (redis.RPush c (Key (conf (this s))) (types.Get p)))
      as [e|] eqn:Hp; [discriminate|].
    rewrite Iter_from_step, (Write_part_ok _ _ _ _ Hp).
    rewrite IH; cbn [with_trace this trace allocated pushes map].
    + rewrite <- app_assoc. reflexivity.
    + exact Hacc.
Qed.

Lemma Iter_stops_at_failure (c : redis.Client) (p : types.Part)
      (post : list types.Part) (e : string) (pre : list types.Part) :
  forall (i : nat) (s : state),
    idle s ->
    client (this s) = Some c ->
    accepts remote (trace s) c (Key (conf (this s))) pre = true ->
    remote (trace s ++ pushes c (Key (conf (this s))) pre)
           (redis.RPush c (Key (conf (this s))) (types.Get p)) = Some e ->
    run (types.Iter_from i (pre ++ p :: post) (Write_part remote c)) s =
    inr (Some ErrNotConnected,
         torn_down remote (with_trace s (trace s ++ pushes c (Key (conf (this s))) pre)) c p e).
Proof.
  induction pre as [|p0 pre IH]; intros i s Hi Hc Hacc Hfail.
  - cbn [app pushes map] in *. rewrite app_nil_r in *.
    rewrite Iter_from_step, (Write_part_fail _ _ _ _ _ Hi Hc Hfail).
    destruct s; reflexivity.
  - cbn [accepts] in Hacc. cbn [app].
    destruct (remote (trace s) (redis.RPush c (Key (conf (this s))) (types.Get p0)))
      as [e0|] eqn:Hp; [discriminate|].
    rewrite Iter_from_step, (Write_part_ok _ _ _ _ Hp).
    rewrite IH; cbn [with_trace this trace allocated pushes map] in *.
    + rewrite <- !app_assoc. reflexivity.
    + exact Hi.
    + exact Hc.
    + exact Hacc.
    + rewrite <- app_assoc. exact Hfail.
Qed.

Lemma Write_run (msg : types.Message) (s : state) :
  idle s ->
  run (Write remote msg) s =
  match client (this s) with
  | None => inr (Some ErrNotConnected, s)
  | Some c => run (types.Iter_from 0 (types.parts msg) (Write_part remote c)) s
  end.
Proof.
  intros H. open_state s. destruct cl as [c|]; reflexivity.
Qed.

Lemma Connect_run (s : state) :
  idle s ->
  run (Connect remote) s =
  inr match redisDB (url.Path (url (this s))) with
      | inr err => (Some err, s)
      | inl db =>
          let c := next_client s db in
          match remote (trace s) (redis.Ping c) with
          | Some e =>
              (Some (RedisError e),
               {| this := this s;
                  trace := trace s ++ [Call (redis.Ping c) (Some e)];
                  allocated := S (allocated s) |})
          | None =>
              (None,
               {| this := set_client (Some c) (this s);
                  trace := trace s ++
                    [Call (redis.Ping c) None;
                     Logged Info ("Pushing messages to Redis list: "
                                  ++ Key (conf (this s)) ++ newline)];
                  allocated := S (allocated s) |})
          end
      end.
Proof.
  intros H. open_state s. unfold run, Connect, next_client, dial_options.
  cbn -[redisDB append].
  destruct (redisDB (url.Path u)) as [db|err]; cbn -[append]; [|reflexivity].
  match goal with |- context [remote tr ?q] => destruct (remote tr q) as [e|] end;
    cbn -[append]; [reflexivity|].
  rewrite <- app_assoc. reflexivity.
Qed.


Lemma disconnect_returns (s : state) :
  idle s ->
  exists res s', run (disconnect remote) s = inr (res, s') /\ settled s s' /\ client (this s') = None.
Proof.
  intros H. rewrite (disconnect_run s H). unfold settled.
  destruct (client (this s)) eqn:Hc; eexists; eexists; (split; [reflexivity|]);
    open_state s; auto.
Qed.

End Runs.

(** ** Write *)

Section WriteProperties.

Variable remote : list event -> redis.request -> option string.

(** C1.  With a client installed and a store that acknowledges every
    push, [Write] of a message of k parts sends exactly k [RPush]
    commands to the configured key through that client, the i-th one
    carrying the bytes of the i-th part, sends nothing else and returns
    [nil]. *)
Theorem Write_pushes_every_part (s : state) (c : redis.Client)
        (msg : types.Message) :
  idle s ->
  client (this s) = Some c ->
  accepts remote (trace s) c (Key (conf (this s))) (types.parts msg) = true ->
  let key := Key (conf (this s)) in
  let sent := pushes c key (types.parts msg) in
  run (Write remote msg) s = inr (None, with_trace s (trace s ++ sent)) /\
  List.length sent = List.length (types.parts msg) /\
  (forall i p, nth_error (types.parts msg) i = Some p ->
               nth_error sent i = Some (Call (redis.RPush c key (types.Get p)) None)).
Proof.
  intros Hi Hc Hacc key sent. split; [|split].
  - rewrite (Write_run remote msg s Hi), Hc.
    apply Iter_all_pushed. exact Hacc.
  - apply length_map.
  - intros i p Hp. unfold sent, pushes.
    rewrite nth_error_map, Hp. reflexivity.
Qed.

(** C2.  When the store acknowledges the pushes of the parts [pre] and
    fails the push of the next part [p] with any error [e], [Write]
    sends nothing for the parts after [p], closes the installed client,
    clears the stored reference, logs [e] and returns
    [ErrNotConnected]; a following [Write] returns [ErrNotConnected]
    and sends nothing. *)
Theorem Write_failure_tears_down (s : state) (c : redis.Client)
        (pre : list types.Part) (p : types.Part) (post : list types.Part)
        (e : string) (next : types.Message) :
  idle s ->
  client (this s) = Some c ->
  accepts remote (trace s) c (Key (conf (this s))) pre = true ->
  remote (trace s ++ pushes c (Key (conf (this s))) pre)
         (redis.RPush c (Key (conf (this s))) (types.Get p)) = Some e ->
  let key := Key (conf (this s)) in
  let failed := (trace s ++ pushes c key pre ++
                 [Call (redis.RPush c key (types.Get p)) (Some e)])%list in
  exists s',
    run (Write remote {| types.parts := pre ++ p :: post |}) s =
      inr (Some ErrNotConnected, s') /\
    trace s' = (failed ++ [Call (redis.Close c) (remote failed (redis.Close c));
                           Logged Error ("Error from redis: " ++ e ++ newline)])%list /\
    client (this s') = None /\
    settled s s' /\
    run (Write remote next) s' = inr (Some ErrNotConnected, s').
Proof.
  intros Hi Hc Hacc Hfail key failed.
  eexists. split; [|split; [|split; [|split]]].
  - rewrite (Write_run remote _ s Hi), Hc. cbn [types.parts].
    apply Iter_stops_at_failure; eassumption.
  - unfold failed, key. cbn. rewrite <- !app_assoc. reflexivity.
  - reflexivity.
  - open_state s. unfold settled, idle. cbn. auto.
  - rewrite Write_run; [reflexivity|].
    open_state s. reflexivity.
Qed.

(** C3.  Without an installed client [Write] returns [ErrNotConnected]
    and leaves the state, hence the history, as it was: nothing is
    sent.  This is the situation of a freshly built writer and of a
    writer after [disconnect]. *)
Theorem Write_without_client (s : state) (msg : types.Message) :
  idle s ->
  (client (this s) = None ->
   run (Write remote msg) s = inr (Some ErrNotConnected, s)) /\
  (forall Parse cf r, NewRedisList Parse cf = inl r ->
     run (Write remote msg) (boot r) = inr (Some ErrNotConnected, boot r)) /\
  (forall res s', run (disconnect remote) s = inr (res, s') ->
     run (Write remote msg) s' = inr (Some ErrNotConnected, s')).
Proof.
  intros Hi. split; [|split].
  - intros Hc. rewrite (Write_run remote msg s Hi), Hc. reflexivity.
  - intros Parse cf r Hr. unfold NewRedisList in Hr.
    destruct (Parse (URL cf)); inversion Hr; subst. reflexivity.
  - intros res s' Hd.
    destruct (disconnect_returns remote s Hi) as (res0 & s0 & Hrun & (Hi' & _) & Hc').
    rewrite Hrun in Hd. inversion Hd; subst.
    rewrite (Write_run remote msg s' Hi'), Hc'. reflexivity.
Qed.

(** C10.  With a client installed, [Write] of a message without parts
    returns [nil] and leaves the state as it was: nothing is sent and
    the installed client stays. *)
Theorem Write_empty_message (s : state) (c : redis.Client) :
  idle s ->
  client (this s) = Some c ->
  run (Write remote {| types.parts := [] |}) s = inr (None, s).
Proof.
  intros Hi Hc. rewrite (Write_run remote _ s Hi), Hc. reflexivity.
Qed.

End WriteProperties.

(** ** strconv.Atoi on decimal numerals *)

Lemma digits_of_uint_acc (d : Decimal.uint) :
  forall acc : positive,
    strconv.digits (Zpos acc) (NilEmpty.string_of_uint d) =
    Some (Zpos (Pos.of_uint_acc d acc)).
Proof.
  induction d; intros acc; cbn [NilEmpty.string_of_uint strconv.digits Pos.of_uint_acc];
    [reflexivity | ..];
    match goal with
    | |- context [strconv.digit ?c] =>
        let v := eval vm_compute in (strconv.digit c) in
        change (strconv.digit c) with v
    end; cbv iota; rewrite <- IHd; f_equal; lia.
Qed.

Lemma digits_of_uint (d : Decimal.uint) :
  strconv.digits 0 (NilEmpty.string_of_uint d) = Some (Z.of_N (N.of_uint d)).
Proof.
  induction d; cbn [NilEmpty.string_of_uint strconv.digits N.of_uint Pos.of_uint];
    [reflexivity | ..];
    match goal with
    | |- context [strconv.digit ?c] =>
        let v := eval vm_compute in (strconv.digit c) in
        change (strconv.digit c) with v
    end; cbv iota; cbn [Z.mul Z.add Z.of_N];
    [exact IHd | apply digits_of_uint_acc ..].
Qed.

Lemma Itoa_digits (n : N) : strconv.digits 0 (strconv.Itoa n) = Some (Z.of_N n).
Proof.
  unfold strconv.Itoa. rewrite digits_of_uint, DecimalN.Unsigned.of_to. reflexivity.
Qed.

(** A numeral starts with a digit, so it is not empty and has no sign. *)
Lemma Itoa_head (n : N) :
  exists c t, strconv.Itoa n = String c t /\
              Ascii.eqb c "-" = false /\ Ascii.eqb c "+" = false.
Proof.
  unfold strconv.Itoa.
  assert (H : N.to_uint n <> Decimal.Nil).
  { destruct n as [|p]; [discriminate|]. apply DecimalPos.Unsigned.to_uint_nonnil. }
  destruct (N.to_uint n); [congruence | ..];
    eexists; eexists; (split; [reflexivity | split; reflexivity]).
Qed.

Lemma Atoi_Itoa (n : N) :
  (Z.of_N n <= strconv.maxInt)%Z ->
  strconv.Atoi (strconv.Itoa n) = Some (Z.of_N n).
Proof.
  intros Hn. pose proof (Itoa_digits n) as Hd.
  destruct (Itoa_head n) as (c & t & E & Hm & Hp).
  unfold strconv.Atoi. rewrite E in *. rewrite Hm, Hp, Hd.
  assert (Hlo : (strconv.minInt <= Z.of_N n)%Z) by (unfold strconv.minInt, strconv.intSize; lia).
  apply Z.leb_le in Hn, Hlo. rewrite Hn, Hlo. reflexivity.
Qed.

Lemma Atoi_minus_Itoa (n : N) :
  (Z.of_N n <= - strconv.minInt)%Z ->
  strconv.Atoi (String "-" (strconv.Itoa n)) = Some (- Z.of_N n)%Z.
Proof.
  intros Hn. pose proof (Itoa_digits n) as Hd.
  destruct (Itoa_head n) as (c & t & E & _).
  unfold strconv.Atoi. cbn [Ascii.eqb Bool.eqb]. rewrite E in *. rewrite Hd.
  assert (Hlo : (strconv.minInt <= - Z.of_N n)%Z) by lia.
  assert (Hhi : (- Z.of_N n <= strconv.maxInt)%Z)
    by (unfold strconv.maxInt, strconv.intSize; lia).
  apply Z.leb_le in Hhi, Hlo. rewrite Hhi, Hlo. reflexivity.
Qed.

Lemma digits_rejects (s : string) :
  forall acc, strconv.has_non_digit s = true -> strconv.digits acc s = None.
Proof.
  induction s as [|c s IH]; intros acc H; cbn in *; [discriminate|].
  destruct (strconv.digit c); [apply IH; exact H | reflexivity].
Qed.

(** A byte that is not a digit anywhere past the first byte makes [Atoi]
    fail, whatever the first byte is. *)
Lemma Atoi_rejects (s : string) :
  strconv.has_non_digit (drop 1 s) = true -> strconv.Atoi s = None.
Proof.
  destruct s as [|c t]; cbn [drop]; intros H; [discriminate|].
  assert (Ht : exists c' t', t = String c' t') by (destruct t; [discriminate|eauto]).
  destruct Ht as (c' & t' & ->).
  unfold strconv.Atoi.
  destruct (Ascii.eqb c "-"); [|destruct (Ascii.eqb c "+")];
    try (rewrite (digits_rejects _ 0%Z H); reflexivity).
  change (strconv.digits 0 (String c (String c' t')))
    with (match strconv.digit c with
          | Some d => strconv.digits (0 * 10 + d) (String c' t')
          | None => None
          end).
  destruct (strconv.digit c); [|reflexivity].
  rewrite (digits_rejects _ _ H). reflexivity.
Qed.

(** ** The database index of the endpoint *)

Lemma redisDB_unparsable (path : string) :
  (1 < String.length path)%nat ->
  strconv.Atoi (drop 1 path) = None ->
  redisDB path = inr (Errorf ("invalid Redis DB, can't parse '" ++ path ++ "'")).
Proof.
  intros Hlen Hno. unfold redisDB.
  apply Nat.ltb_lt in Hlen. rewrite Hlen, Hno. reflexivity.
Qed.

(** ** Connect and disconnect *)

Section LifecycleProperties.

Variable remote : list event -> redis.request -> option string.

(** C6 (amended).  A failing [Connect] returns its error and leaves the
    stored client as it was: a failed probe returns the error of the
    probe, no new client is installed, a writer without a client stays
    without one, and a writer that had a client keeps that client. *)
Theorem Connect_failure_keeps_handle (s : state) :
  idle s ->
  (forall db e,
      redisDB (url.Path (url (this s))) = inl db ->
      remote (trace s) (redis.Ping (next_client s db)) = Some e ->
      exists s', run (Connect remote) s = inr (Some (RedisError e), s')) /\
  (forall err s',
      run (Connect remote) s = inr (Some err, s') ->
      client (this s') = client (this s) /\ settled s s') /\
  (client (this s) = None ->
   forall err s',
     run (Connect remote) s = inr (Some err, s') -> client (this s') = None).
Proof.
  intros Hi.
  assert (Hkeep : forall err s',
             run (Connect remote) s = inr (Some err, s') ->
             client (this s') = client (this s) /\ settled s s').
  { intros err s'. rewrite (Connect_run remote s Hi).
    destruct (redisDB _) as [db|err0].
    - cbv zeta. destruct (remote _ _); intros H; inversion H; subst.
      unfold settled. open_state s. auto.
    - intros H; inversion H; subst. unfold settled. auto. }
  split; [|split].
  - intros db e Hdb Hping. rewrite (Connect_run remote s Hi), Hdb. cbv zeta.
    rewrite Hping. eauto.
  - exact Hkeep.
  - intros Hc err s' H. destruct (Hkeep err s' H) as [E _]. congruence.
Qed.

(** C7.  [disconnect] on a writer without a client returns [nil] and
    changes nothing.  Any [disconnect] returns, leaves no client stored,
    also when closing the client fails, in which case the close error
    is what it returns, and a second [disconnect] right after it returns
    [nil] and changes nothing. *)
Theorem disconnect_idempotent (s : state) :
  idle s ->
  (client (this s) = None -> run (disconnect remote) s = inr (None, s)) /\
  (exists res s1,
      run (disconnect remote) s = inr (res, s1) /\
      client (this s1) = None /\
      settled s s1 /\
      run (disconnect remote) s1 = inr (None, s1)) /\
  (forall c e,
      client (this s) = Some c ->
      remote (trace s) (redis.Close c) = Some e ->
      exists s1,
        run (disconnect remote) s = inr (Some (RedisError e), s1) /\
        client (this s1) = None).
Proof.
  intros Hi. split; [|split].
  - intros Hc. rewrite (disconnect_run remote s Hi), Hc. reflexivity.
  - destruct (disconnect_returns remote s Hi) as (res & s1 & Hrun & Hset & Hc).
    exists res, s1. repeat split; try assumption; try apply Hset.
    rewrite (disconnect_run remote s1 (proj1 Hset)), Hc. reflexivity.
  - intros c e Hc He. rewrite (disconnect_run remote s Hi), Hc. cbv zeta.
    rewrite He. eexists. split; reflexivity.
Qed.

End LifecycleProperties.

(** ** Endpoint resolution *)

(** C5 (amended).  A path of at most one byte resolves to database 0; the
    path [/N] resolves to [N] for every natural number [N] up to the
    largest [int]; a minus sign is accepted, [/-N] resolving to [-N] down
    to the smallest [int]; a path of more than one byte whose tail
    [Atoi] rejects, in particular any tail with a non-digit past its first
    byte, makes resolution fail with the error that quotes the path.
    [Connect] returns that error without sending anything, and otherwise
    probes a client built for the resolved index. *)
Theorem redisDB_resolution :
  (forall path, (String.length path <= 1)%nat -> redisDB path = inl 0%Z) /\
  (forall n : N, (Z.of_N n <= strconv.maxInt)%Z ->
     redisDB (String "/" (strconv.Itoa n)) = inl (Z.of_N n)) /\
  (forall n : N, (Z.of_N n <= - strconv.minInt)%Z ->
     redisDB (String "/" (String "-" (strconv.Itoa n))) = inl (- Z.of_N n)%Z) /\
  (forall path, (1 < String.length path)%nat ->
     strconv.Atoi (drop 1 path) = None ->
     redisDB path = inr (Errorf ("invalid Redis DB, can't parse '" ++ path ++ "'"))) /\
  (forall path, strconv.has_non_digit (drop 2 path) = true ->
     redisDB path = inr (Errorf ("invalid Redis DB, can't parse '" ++ path ++ "'"))) /\
  (forall remote s err, idle s ->
     redisDB (url.Path (url (this s))) = inr err ->
     run (Connect remote) s = inr (Some err, s)) /\
  (forall remote s db, idle s ->
     redisDB (url.Path (url (this s))) = inl db ->
     exists res s',
       run (Connect remote) s = inr (res, s') /\
       redis.DB (redis.opt (next_client s db)) = db /\
       nth_error (trace s') (List.length (trace s)) =
       Some (Call (redis.Ping (next_client s db))
                  (remote (trace s) (redis.Ping (next_client s db))))).
Proof.
  pose proof redisDB_unparsable as Hlong.
  repeat split.
  - intros path Hlen. unfold redisDB.
    destruct (Nat.ltb_spec 1 (String.length path)); [lia | reflexivity].
  - intros n Hn. destruct (Itoa_head n) as (c & t & E & _).
    unfold redisDB. rewrite E. cbn [String.length Nat.ltb Nat.leb drop].
    rewrite <- E, (Atoi_Itoa n Hn). reflexivity.
  - intros n Hn. unfold redisDB. cbn [String.length Nat.ltb Nat.leb drop].
    rewrite (Atoi_minus_Itoa n Hn). reflexivity.
  - exact Hlong.
  - intros path H. destruct path as [|c0 [|c1 t]]; cbn [drop] in H; try discriminate.
    apply Hlong; [cbn; lia|]. cbn [drop]. apply Atoi_rejects. exact H.
  - intros remote s err Hi Hdb. rewrite (Connect_run remote s Hi), Hdb. reflexivity.
  - intros remote s db Hi Hdb. rewrite (Connect_run remote s Hi), Hdb. cbv zeta.
    destruct (remote (trace s) (redis.Ping (next_client s db))) as [e|];
      eexists; eexists; (split; [reflexivity|split; [reflexivity|]]);
      cbn [trace]; rewrite nth_error_app2, Nat.sub_diag by lia; reflexivity.
Qed.

(** ** Sequences of calls on an endpoint without a database index *)

Lemma perform_all_step (remote : list event -> redis.request -> option string)
      (o : op) (ops : list op) (s : state) :
  run (perform_all remote (o :: ops)) s =
  match run (perform remote o) s with
  | inl h => inl h
  | inr (res, s1) =>
      match run (perform_all remote ops) s1 with
      | inl h => inl h
      | inr (rest, s2) => inr (res :: rest, s2)
      end
  end.
Proof.
  unfold run. cbn.
  destruct (runStateT (perform remote o) s) as [h|[res s1]]; [reflexivity|].
  cbn. destruct (runStateT (perform_all remote ops) s1) as [h|[rest s2]]; reflexivity.
Qed.

Lemma perform_unresolved (remote : list event -> redis.request -> option string)
      (err : error) (o : op) (s : state) :
  idle s ->
  client (this s) = None ->
  redisDB (url.Path (url (this s))) = inr err ->
  run (perform remote o) s = inr (answer_unresolved err o, s).
Proof.
  intros Hi Hc Hdb. destruct o; cbn [perform answer_unresolved].
  - rewrite (Connect_run remote s Hi), Hdb. reflexivity.
  - rewrite (Write_run remote msg s Hi), Hc. reflexivity.
  - rewrite (disconnect_run remote s Hi), Hc. reflexivity.
  - open_state s. reflexivity.
  - reflexivity.
Qed.

Lemma perform_all_unresolved (remote : list event -> redis.request -> option string)
      (err : error) (ops : list op) (s : state) :
  idle s ->
  client (this s) = None ->
  redisDB (url.Path (url (this s))) = inr err ->
  run (perform_all remote ops) s = inr (map (answer_unresolved err) ops, s).
Proof.
  intros Hi Hc Hdb. induction ops as [|o ops IH]; [reflexivity|].
  rewrite perform_all_step, (perform_unresolved remote err o s Hi Hc Hdb), IH.
  reflexivity.
Qed.

(** C4 (amended).  The endpoint is parsed as a URI once, by
    [NewRedisList]: when that fails, construction fails with the parser's
    error and there is no writer.  The database index in the path is read
    by [Connect], at every call, not at construction: for an endpoint
    whose path tail [Atoi] rejects, construction succeeds with no client
    stored, and in every sequence of calls on that writer each [Connect]
    returns the error quoting the path, each [Write] returns
    [ErrNotConnected], and the state never leaves the initial one, so no
    client is allocated and nothing is sent. *)
Theorem endpoint_checked_at_construction_and_connect
        (Parse : string -> url.result) (cf : RedisListConfig) :
  (forall e, Parse (URL cf) = inr e -> NewRedisList Parse cf = inr (UrlError e)) /\
  (forall u,
      Parse (URL cf) = inl u ->
      (1 < String.length (url.Path u))%nat ->
      strconv.Atoi (drop 1 (url.Path u)) = None ->
      exists r,
        NewRedisList Parse cf = inl r /\
        client r = None /\
        forall remote ops,
          run (perform_all remote ops) (boot r) =
          inr (map (answer_unresolved
                      (Errorf ("invalid Redis DB, can't parse '" ++ url.Path u ++ "'")))
                   ops,
               boot r)).
Proof.
  split.
  - intros e He. unfold NewRedisList. rewrite He. reflexivity.
  - intros u Hu Hlen Hno. unfold NewRedisList. rewrite Hu.
    eexists. split; [reflexivity|]. split; [reflexivity|].
    intros remote ops. apply perform_all_unresolved; try reflexivity.
    cbn [boot this url]. apply redisDB_unparsable; assumption.
Qed.

(** ** Which errors reach the caller *)

Lemma log_lines_app (t1 t2 : list event) :
  log_lines (t1 ++ t2) = (log_lines t1 ++ log_lines t2)%list.
Proof. unfold log_lines. apply flat_map_app. Qed.






(** * The properties on concrete runs *)

(** The scenario of the endpoint [tcp://:secret@cache-host:6379/2] with key
    [jobs]: construction, a successful [Connect] and three pushes. *)
Example jobs_scenario :
  NewRedisList url.ParseAuthority jobs_conf = inl jobs_sink /\
  run (Connect healthy) (boot jobs_sink) = inr (None, jobs_connected) /\
  calls (trace jobs_connected) = [redis.Ping jobs_client] /\
  redis.DB (redis.opt jobs_client) = 2%Z.
Proof. repeat split; reflexivity. Qed.

Lemma Write_pushes_every_part_witness :
  idle jobs_connected /\
  client (this jobs_connected) = Some jobs_client /\
  accepts healthy (trace jobs_connected) jobs_client "jobs"
          (types.parts three_parts) = true /\
  run (Write healthy three_parts) jobs_connected =
  inr (None,
       with_trace jobs_connected
         (trace jobs_connected ++
          [Call (redis.RPush jobs_client "jobs" (list_byte_of_string "alpha")) None;
           Call (redis.RPush jobs_client "jobs" (list_byte_of_string "beta")) None;
           Call (redis.RPush jobs_client "jobs" (list_byte_of_string "gamma")) None])).
Proof.
  split; [reflexivity|]. split; [reflexivity|]. split; [reflexivity|].
  exact (proj1 (Write_pushes_every_part healthy jobs_connected jobs_client
                  three_parts eq_refl eq_refl eq_refl)).
Defined.

Lemma Write_failure_tears_down_witness :
  accepts (drops_after 3 true) (trace jobs_connected) jobs_client "jobs"
          [part_of "alpha"] = true /\
  exists s',
    run (Write (drops_after 3 true) three_parts) jobs_connected =
      inr (Some ErrNotConnected, s') /\
    trace s' =
      (trace jobs_connected ++
       [Call (redis.RPush jobs_client "jobs" (list_byte_of_string "alpha")) None;
        Call (redis.RPush jobs_client "jobs" (list_byte_of_string "beta")) (Some "EOF");
        Call (redis.Close jobs_client) (Some "use of closed network connection");
        Logged Error ("Error from redis: EOF" ++ newline)])%list /\
    client (this s') = None /\
    settled jobs_connected s' /\
    run (Write (drops_after 3 true) three_parts) s' = inr (Some ErrNotConnected, s').
Proof.
  split; [reflexivity|].
  exact (Write_failure_tears_down (drops_after 3 true) jobs_connected jobs_client
           [part_of "alpha"] (part_of "beta") [part_of "gamma"] "EOF" three_parts
           eq_refl eq_refl eq_refl eq_refl).
Defined.

Lemma Write_without_client_witness :
  idle (boot jobs_sink) /\
  client (this (boot jobs_sink)) = None /\
  run (Write healthy three_parts) (boot jobs_sink) =
  inr (Some ErrNotConnected, boot jobs_sink).
Proof.
  split; [reflexivity|]. split; [reflexivity|].
  exact (proj1 (Write_without_client healthy (boot jobs_sink) three_parts eq_refl)
               eq_refl).
Defined.

Lemma Write_empty_message_witness :
  idle jobs_connected /\
  client (this jobs_connected) = Some jobs_client /\
  run (Write healthy {| types.parts := [] |}) jobs_connected =
  inr (None, jobs_connected).
Proof.
  split; [reflexivity|]. split; [reflexivity|].
  exact (Write_empty_message healthy jobs_connected jobs_client eq_refl eq_refl).
Defined.

(** [jobs_connected] after a [Connect] that finds the store unreachable:
    the failed probe is recorded, a client has been allocated and dropped,
    the stored client is the old one. *)
Lemma Connect_failure_keeps_handle_witness :
  idle jobs_connected /\
  (exists s', run (Connect unreachable) jobs_connected =
              inr (Some (RedisError "dial tcp: connection refused"), s')) /\
  forall err s',
    run (Connect unreachable) jobs_connected = inr (Some err, s') ->
    client (this s') = Some jobs_client /\ settled jobs_connected s'.
Proof.
  split; [reflexivity|]. split.
  - exact (proj1 (Connect_failure_keeps_handle unreachable jobs_connected eq_refl)
                 2%Z "dial tcp: connection refused" eq_refl eq_refl).
  - exact (proj1 (proj2 (Connect_failure_keeps_handle unreachable jobs_connected
                           eq_refl))).
Defined.

Lemma disconnect_idempotent_witness :
  idle jobs_connected /\
  run (disconnect healthy) (boot jobs_sink) = inr (None, boot jobs_sink) /\
  exists s1,
    run (disconnect (drops_after 3 true)) jobs_connected =
      inr (Some (RedisError "use of closed network connection"), s1) /\
    client (this s1) = None.
Proof.
  split; [reflexivity|]. split.
  - exact (proj1 (disconnect_idempotent healthy (boot jobs_sink) eq_refl) eq_refl).
  - exact (proj2 (proj2 (disconnect_idempotent (drops_after 3 true) jobs_connected
                           eq_refl))
                 jobs_client "use of closed network connection" eq_refl eq_refl).
Defined.

Lemma redisDB_resolution_witness :
  redisDB "" = inl 0%Z /\
  redisDB "/" = inl 0%Z /\
  redisDB "/2" = inl 2%Z /\
  redisDB "/-1" = inl (-1)%Z /\
  redisDB "/abc" = inr (Errorf "invalid Redis DB, can't parse '/abc'") /\
  redisDB "/1x" = inr (Errorf "invalid Redis DB, can't parse '/1x'") /\
  run (Connect healthy) (boot abc_sink) =
    inr (Some (Errorf "invalid Redis DB, can't parse '/abc'"), boot abc_sink) /\
  exists res s',
    run (Connect healthy) (boot jobs_sink) = inr (res, s') /\
    redis.DB (redis.opt (next_client (boot jobs_sink) 2)) = 2%Z /\
    nth_error (trace s') 0 =
    Some (Call (redis.Ping (next_client (boot jobs_sink) 2)) None).
Proof.
  destruct redisDB_resolution as (Hshort & Hnat & Hneg & Hbad & Hnondigit & Hfail & Hdial).
  split; [exact (Hshort "" (Nat.le_0_l 1))|].
  split; [exact (Hshort "/" (Nat.le_refl 1))|].
  split; [apply (Hnat 2%N); discriminate|].
  split; [apply (Hneg 1%N); discriminate|].
  split; [apply (Hbad "/abc"); [apply Nat.ltb_lt|]; reflexivity|].
  split; [apply (Hnondigit "/1x"); reflexivity|].
  split; [apply (Hfail healthy (boot abc_sink)); reflexivity|].
  apply (Hdial healthy (boot jobs_sink) 2%Z); reflexivity.
Defined.

(** An endpoint that does not parse as a URI, and one that does but names
    no database index. *)
Lemma endpoint_checked_at_construction_and_connect_witness :
  NewRedisList url.ParseAuthority
    {| URL := "://cache-host"; Key := "jobs"; MaxInFlight := 1 |} =
    inr (UrlError "missing protocol scheme") /\
  exists r,
    NewRedisList url.ParseAuthority abc_conf = inl r /\
    client r = None /\
    forall remote ops,
      run (perform_all remote ops) (boot r) =
      inr (map (answer_unresolved (Errorf "invalid Redis DB, can't parse '/abc'")) ops,
           boot r).
Proof.
  split.
  - exact (proj1 (endpoint_checked_at_construction_and_connect url.ParseAuthority
                    {| URL := "://cache-host"; Key := "jobs"; MaxInFlight := 1 |})
                 "missing protocol scheme" eq_refl).
  - apply (proj2 (endpoint_checked_at_construction_and_connect url.ParseAuthority
                    abc_conf) (url abc_sink)); [|apply Nat.ltb_lt|]; reflexivity.
Defined.


(** ** Where the code departs from the specification *)

(** C4.  Construction succeeds on an endpoint whose path holds no integer;
    the index is looked at by [Connect], and again by the next
    [Connect]. *)
Lemma construction_accepts_non_integer_db :
  strconv.Atoi "abc" = None /\
  NewRedisList url.ParseAuthority abc_conf = inl abc_sink /\
  (forall e, NewRedisList url.ParseAuthority abc_conf <> inr e) /\
  run (perform_all healthy [DoConnect; DoConnect]) (boot abc_sink) =
  inr ([Some (Errorf "invalid Redis DB, can't parse '/abc'");
        Some (Errorf "invalid Redis DB, can't parse '/abc'")],
       boot abc_sink).
Proof.
  split; [reflexivity|]. split; [reflexivity|]. split; [|reflexivity].
  intros e H. discriminate H.
Qed.

(** C5.  A path that encodes a negative integer resolves, to that negative
    index, and a natural number beyond the largest [int] does not
    resolve. *)
Lemma redisDB_negative_and_large :
  redisDB "/-1" = inl (-1)%Z /\
  (forall e, redisDB "/-1" <> inr e) /\
  strconv.Itoa 9223372036854775808 = "9223372036854775808" /\
  redisDB "/9223372036854775808" =
    inr (Errorf "invalid Redis DB, can't parse '/9223372036854775808'") /\
  redisDB "/9223372036854775808" <> inl 9223372036854775808%Z.
Proof.
  split; [reflexivity|]. split; [intros e H; discriminate H|].
  split; [reflexivity|]. split; [reflexivity|]. intros H; discriminate H.
Qed.

(** C6.  A [Connect] that fails on a writer that has a client leaves that
    client installed. *)
Lemma failed_Connect_on_connected_writer :
  exists s',
    run (Connect unreachable) jobs_connected =
      inr (Some (RedisError "dial tcp: connection refused"), s') /\
    client (this s') = Some jobs_client /\
    client (this s') <> None.
Proof.
  eexists. split; [reflexivity|]. split; [reflexivity|]. discriminate.
Qed.


(** * Further properties of the writer *)

(** ** Connect *)

Lemma calls_app (t1 t2 : list event) : calls (t1 ++ t2) = (calls t1 ++ calls t2)%list.
Proof. unfold calls. apply flat_map_app. Qed.

Lemma closed_app (t1 t2 : list event) :
  closed (t1 ++ t2) = (closed t1 ++ closed t2)%list.
Proof. unfold closed. apply flat_map_app. Qed.

(** X1.  When the database index resolves and the probe succeeds,
    [Connect] returns [nil] and stores a client that was not allocated
    before, built for the host, the scheme, the resolved index and the
    password of the endpoint (the empty password when the endpoint has no
    user information).  It sends the probe and nothing else, logs the key,
    and leaves the lock free. *)
Theorem Connect_success_installs_fresh_client
        (remote : list event -> redis.request -> option string)
        (s : state) (db : Z) :
  idle s ->
  redisDB (url.Path (url (this s))) = inl db ->
  remote (trace s) (redis.Ping (next_client s db)) = None ->
  exists c s',
    run (Connect remote) s = inr (None, s') /\
    client (this s') = Some c /\
    redis.id c = allocated s /\
    allocated s' = S (allocated s) /\
    redis.Addr (redis.opt c) = url.Host (url (this s)) /\
    redis.Network (redis.opt c) = url.Scheme (url (this s)) /\
    redis.DB (redis.opt c) = db /\
    redis.Password (redis.opt c) =
      match url.User (url (this s)) with
      | Some u => url.password u
      | None => ""
      end /\
    trace s' = (trace s ++
                [Call (redis.Ping c) None;
                 Logged Info ("Pushing messages to Redis list: "
                              ++ Key (conf (this s)) ++ newline)])%list /\
    settled s s'.
Proof.
  intros Hi Hdb Hping. exists (next_client s db).
  rewrite (Connect_run remote s Hi), Hdb. cbv zeta. rewrite Hping.
  eexists. split; [reflexivity|].
  unfold settled. open_state s. repeat (split; [reflexivity|]). auto.
Qed.

(** X2.  [Connect] never closes a client and never pushes: whatever its
    outcome, the commands it adds are none or the single probe of the
    client it has just allocated, and the stored client afterwards is the
    one stored before or that new client.  So a successful [Connect] on a
    writer that already has a client replaces it by a different client
    and leaves the old one unclosed. *)
Theorem Connect_never_closes
        (remote : list event -> redis.request -> option string) (s : state) :
  idle s ->
  exists res s',
    run (Connect remote) s = inr (res, s') /\
    closed (trace s') = closed (trace s) /\
    (calls (trace s') = calls (trace s) \/
     exists db, calls (trace s') =
                (calls (trace s) ++ [redis.Ping (next_client s db)])%list) /\
    (res <> None -> client (this s') = client (this s)) /\
    (res = None ->
     exists c, client (this s') = Some c /\ redis.id c = allocated s /\
               forall old, client (this s) = Some old ->
                           redis.id old < allocated s -> c <> old).
Proof.
  intros Hi. rewrite (Connect_run remote s Hi).
  destruct (redisDB (url.Path (url (this s)))) as [db|err].
  - cbv zeta.
    destruct (remote (trace s) (redis.Ping (next_client s db))) as [e|];
      eexists; eexists; (split; [reflexivity|]); cbn [trace this];
      rewrite closed_app, calls_app; cbn [closed calls flat_map app];
      rewrite !app_nil_r.
    + split; [reflexivity|]. split; [right; exists db; reflexivity|].
      split; [reflexivity|]. intros H; discriminate H.
    + split; [reflexivity|]. split; [right; exists db; reflexivity|].
      split; [intros H; congruence|]. intros _.
      exists (next_client s db). split; [open_state s; reflexivity|].
      split; [reflexivity|]. intros old _ Hlt Heq. subst old.
      cbn in Hlt. lia.
  - exists (Some err), s. split; [reflexivity|]. split; [reflexivity|].
    split; [left; reflexivity|]. split; [reflexivity|]. intros H; discriminate H.
Qed.

(** ** The lock *)




(** ** What a Write sends *)

Lemma calls_pushes (c : redis.Client) (key : string) (ps : list types.Part) :
  calls (pushes c key ps) = map (rpush c key) ps.
Proof.
  induction ps as [|p ps IH]; [reflexivity|].
  change (calls (pushes c key (p :: ps)))
    with (rpush c key p :: calls (pushes c key ps)).
  rewrite IH. reflexivity.
Qed.


Lemma closed_pushes (c : redis.Client) (key : string) (ps : list types.Part) :
  closed (pushes c key ps) = [].
Proof.
  induction ps as [|p ps IH]; [reflexivity|].
  change (closed (pushes c key (p :: ps))) with (closed (pushes c key ps)).
  exact IH.
Qed.



Lemma acknowledging_accepts (remote : list event -> redis.request -> option string)
      (c : redis.Client) (key : string) (ps : list types.Part) :
  acknowledging remote ->
  forall hist, accepts remote hist c key ps = true.
Proof.
  intros Hack. induction ps as [|p ps IH]; intros hist; [reflexivity|].
  cbn [accepts]. rewrite Hack. apply IH.
Qed.

Lemma perform_writes (remote : list event -> redis.request -> option string)
      (c : redis.Client) (ms : list types.Message) :
  acknowledging remote ->
  forall s,
    idle s ->
    client (this s) = Some c ->
    run (perform_all remote (map DoWrite ms)) s =
    inr (map (fun _ => None) ms,
         with_trace s (trace s ++ pushes c (Key (conf (this s)))
                                         (flat_map types.parts ms))).
Proof.
  intros Hack. induction ms as [|m ms IH]; intros s Hi Hc.
  - cbn. rewrite app_nil_r. destruct s; reflexivity.
  - cbn [map]. rewrite perform_all_step. cbn [perform].
    rewrite (Write_run remote m s Hi), Hc.
    rewrite (Iter_all_pushed remote c (types.parts m) 0 s
               (acknowledging_accepts remote c _ _ Hack _)).
    rewrite IH by assumption. cbn [with_trace this trace allocated flat_map].
    unfold pushes. rewrite map_app, <- app_assoc. reflexivity.
Qed.

(** X6.  On a store that answers the probe and acknowledges every push, a
    freshly built writer whose database index resolves to [db] serves
    [Connect] followed by any number of [Write]s with [nil] each time.
    The commands sent are the probe and then one push per part of all the
    messages, message after message and part after part, all through the
    one client allocated by [Connect] and all to the configured key; that
    client is still stored at the end. *)
Theorem Connect_then_Writes
        (remote : list event -> redis.request -> option string)
        (Parse : string -> url.result) (cf : RedisListConfig)
        (r : RedisList) (db : Z) (ms : list types.Message) :
  NewRedisList Parse cf = inl r ->
  redisDB (url.Path (url r)) = inl db ->
  answers_ping remote ->
  acknowledging remote ->
  let c := {| redis.id := 0; redis.opt := dial_options r db |} in
  exists s',
    run (perform_all remote (DoConnect :: map DoWrite ms)) (boot r) =
      inr (None :: map (fun _ => None) ms, s') /\
    calls (trace s') =
      redis.Ping c :: map (rpush c (Key cf)) (flat_map types.parts ms) /\
    client (this s') = Some c /\
    allocated s' = 1.
Proof.
  intros Hnew Hdb Hping Hack c.
  assert (Hr : client r = None /\ connMut r = unlocked /\ conf r = cf).
  { unfold NewRedisList in Hnew. destruct (Parse (URL cf)); inversion Hnew. auto. }
  destruct Hr as (Hcl & Hmu & Hcf).
  rewrite perform_all_step. cbn [perform].
  rewrite (Connect_run remote (boot r) Hmu). cbn [boot this trace allocated].
  rewrite Hdb. cbv zeta. rewrite Hping.
  rewrite (perform_writes remote c ms Hack); [| exact Hmu | reflexivity].
  eexists. split; [reflexivity|].
  cbn [with_trace this trace allocated set_client client conf].
  rewrite calls_app, calls_pushes, Hcf. cbn [calls flat_map app].
  auto.
Qed.

(** ** Closed clients *)






Section Tidy.

Variable remote : list event -> redis.request -> option string.









End Tidy.



(** ** The database index, continued *)

Lemma digits_accepts (s : string) :
  forall acc n, strconv.digits acc s = Some n -> strconv.has_non_digit s = false.
Proof.
  induction s as [|c s IH]; intros acc n H; [reflexivity|].
  cbn [strconv.digits strconv.has_non_digit] in *.
  destruct (strconv.digit c); [eapply IH; exact H | discriminate].
Qed.

Lemma Atoi_sound (s : string) (v : Z) :
  strconv.Atoi s = Some v ->
  (strconv.minInt <= v <= strconv.maxInt)%Z /\
  strconv.has_non_digit (drop 1 s) = false.
Proof.
  unfold strconv.Atoi. destruct s as [|c t]; [discriminate|].
  assert (Hrange : forall (neg : bool) n,
             (let v0 := if neg then (- n)%Z else n in
              if (strconv.minInt <=? v0)%Z && (v0 <=? strconv.maxInt)%Z
              then Some v0 else None) = Some v ->
             (strconv.minInt <= v <= strconv.maxInt)%Z).
  { intros neg n. cbv zeta.
    destruct ((strconv.minInt <=? (if neg then (- n)%Z else n))%Z &&
              ((if neg then (- n)%Z else n) <=? strconv.maxInt)%Z) eqn:E;
      [|discriminate].
    intros H; inversion H; subst. apply andb_prop in E. destruct E as [E1 E2].
    apply Z.leb_le in E1, E2. split; assumption. }
  cbn [drop].
  destruct (Ascii.eqb c "-"); [|destruct (Ascii.eqb c "+")].
  - destruct t as [|c' t']; [discriminate|].
    destruct (strconv.digits 0 (String c' t')) as [n|] eqn:Hd; [|discriminate].
    intros H. split; [exact (Hrange true n H) | exact (digits_accepts _ _ _ Hd)].
  - destruct t as [|c' t']; [discriminate|].
    destruct (strconv.digits 0 (String c' t')) as [n|] eqn:Hd; [|discriminate].
    intros H. split; [exact (Hrange false n H) | exact (digits_accepts _ _ _ Hd)].
  - destruct (strconv.digits 0 (String c t)) as [n|] eqn:Hd; [|discriminate].
    intros H. split; [exact (Hrange false n H)|].
    change (strconv.digits 0 (String c t))
      with (match strconv.digit c with
            | Some d => strconv.digits (0 * 10 + d) t
            | None => None
            end) in Hd.
    destruct (strconv.digit c); [exact (digits_accepts _ _ _ Hd) | discriminate].
Qed.

(** X8.  What endpoint resolution can return.  A path resolves either
    because it has at most one byte, to index 0, or because what follows
    its first byte is an optional sign and decimal digits (no byte after
    the second one is anything but a digit), to an index within [int].
    The only error is the one that quotes the whole path, and it arises
    only for paths of more than one byte. *)
Theorem redisDB_outcomes (path : string) :
  (forall db, redisDB path = inl db ->
     (strconv.minInt <= db <= strconv.maxInt)%Z /\
     ((String.length path <= 1)%nat /\ db = 0%Z \/
      (1 < String.length path)%nat /\
      strconv.Atoi (drop 1 path) = Some db /\
      strconv.has_non_digit (drop 2 path) = false)) /\
  (forall err, redisDB path = inr err ->
     (1 < String.length path)%nat /\
     err = Errorf ("invalid Redis DB, can't parse '" ++ path ++ "'")).
Proof.
  unfold redisDB. destruct (Nat.ltb_spec 1 (String.length path)) as [Hlen|Hlen].
  - destruct (strconv.Atoi (drop 1 path)) as [n|] eqn:Ha; split.
    + intros db H; inversion H; subst.
      destruct (Atoi_sound _ _ Ha) as [Hr Hd]. split; [exact Hr|]. right.
      split; [exact Hlen|]. split; [reflexivity|].
      destruct path as [|c0 [|c1 t]]; cbn [drop] in *; assumption.
    + intros err H; discriminate H.
    + intros db H; discriminate H.
    + intros err H; inversion H; subst. auto.
  - split.
    + intros db H; inversion H; subst. split.
      * unfold strconv.minInt, strconv.maxInt, strconv.intSize. cbn. lia.
      * left. auto.
    + intros err H; discriminate H.
Qed.

(** ** disconnect, and writers without a client *)

(** X9.  [disconnect] on a writer with a stored client sends one [Close]
    through that client and nothing else, logs nothing and allocates
    nothing; a second [disconnect] right after it sends nothing, so the
    client is closed once.  The first call returns the error of the close,
    if any, the second returns [nil]. *)
Theorem disconnect_closes_once
        (remote : list event -> redis.request -> option string)
        (s : state) (c : redis.Client) :
  idle s ->
  client (this s) = Some c ->
  exists s',
    run (perform_all remote [DoDisconnect; DoDisconnect]) s =
      inr ([option_map RedisError (remote (trace s) (redis.Close c)); None], s') /\
    calls (trace s') = (calls (trace s) ++ [redis.Close c])%list /\
    log_lines (trace s') = log_lines (trace s) /\
    allocated s' = allocated s /\
    client (this s') = None.
Proof.
  intros Hi Hc. rewrite perform_all_step. cbn [perform].
  rewrite (disconnect_run remote s Hi), Hc. cbv beta iota zeta.
  rewrite perform_all_step. cbn [perform].
  rewrite disconnect_run by (open_state s; reflexivity).
  cbn [with_client with_trace this trace allocated set_client client].
  cbv beta iota. change (run (perform_all remote []) ?x) with (@inr halt _ (@nil (option error), x)).
  cbv beta iota.
  exists (with_client
            (with_trace s (trace s ++ [Call (redis.Close c)
                                            (remote (trace s) (redis.Close c))]))
            None).
  split; [reflexivity|].
  cbn [with_client with_trace trace this allocated client set_client].
  rewrite calls_app, log_lines_app. cbn [calls log_lines flat_map app].
  rewrite app_nil_r. auto.
Qed.

Lemma perform_unconnected (remote : list event -> redis.request -> option string)
      (o : op) (s : state) :
  idle s ->
  client (this s) = None ->
  is_Connect o = false ->
  run (perform remote o) s = inr (answer_unconnected o, s).
Proof.
  intros Hi Hc Ho. destruct o; cbn [perform answer_unconnected]; try discriminate.
  - rewrite (Write_run remote msg s Hi), Hc. reflexivity.
  - rewrite (disconnect_run remote s Hi), Hc. reflexivity.
  - open_state s. reflexivity.
  - reflexivity.
Qed.

(** X10.  Nothing but [Connect] installs a client.  On a writer without
    a client, any sequence of calls that contains no [Connect] leaves the
    state exactly as it was, so nothing is sent, logged or allocated:
    every [Write] in it returns [ErrNotConnected] and every other call
    returns [nil]. *)
Theorem only_Connect_installs_a_client
        (remote : list event -> redis.request -> option string)
        (ops : list op) (s : state) :
  idle s ->
  client (this s) = None ->
  forallb (fun o => negb (is_Connect o)) ops = true ->
  run (perform_all remote ops) s = inr (map answer_unconnected ops, s).
Proof.
  intros Hi Hc. induction ops as [|o ops IH]; intros Hops; [reflexivity|].
  cbn [forallb] in Hops. apply andb_prop in Hops. destruct Hops as [Ho Hops].
  apply negb_true_iff in Ho.
  rewrite perform_all_step, (perform_unconnected remote o s Hi Hc Ho), (IH Hops).
  reflexivity.
Qed.

(** * The further properties on concrete runs *)

Lemma healthy_acknowledging : acknowledging healthy.
Proof. intros hist c key v. reflexivity. Qed.

Lemma healthy_answers_ping : answers_ping healthy.
Proof. intros hist c. reflexivity. Qed.

Lemma Connect_success_installs_fresh_client_witness :
  idle (boot jobs_sink) /\
  redisDB (url.Path (url (this (boot jobs_sink)))) = inl 2%Z /\
  exists c s',
    run (Connect healthy) (boot jobs_sink) = inr (None, s') /\
    client (this s') = Some c /\
    redis.id c = 0 /\
    redis.DB (redis.opt c) = 2%Z /\
    redis.Password (redis.opt c) = "secret".
Proof.
  split; [reflexivity|]. split; [reflexivity|].
  destruct (Connect_success_installs_fresh_client healthy (boot jobs_sink) 2%Z
              eq_refl eq_refl eq_refl)
    as (c & s' & Hrun & Hc & Hid & _ & _ & _ & Hdb & Hpw & _).
  exists c, s'. auto.
Defined.

(** A second [Connect] on [jobs_connected]: client 1 replaces client 0,
    which is not closed. *)
Lemma Connect_never_closes_witness :
  idle jobs_connected /\
  exists res s',
    run (Connect healthy) jobs_connected = inr (res, s') /\
    closed (trace s') = closed (trace jobs_connected) /\
    (res = None ->
     exists c, client (this s') = Some c /\ redis.id c = 1 /\
               (redis.id jobs_client < 1 -> c <> jobs_client)).
Proof.
  split; [reflexivity|].
  destruct (Connect_never_closes healthy jobs_connected eq_refl)
    as (res & s' & Hrun & Hcl & _ & _ & Hnew).
  exists res, s'. split; [exact Hrun|]. split; [exact Hcl|].
  intros Hres. destruct (Hnew Hres) as (c & Hc & Hid & Hold).
  exists c. split; [exact Hc|]. split; [exact Hid|].
  intros Hlt. exact (Hold jobs_client eq_refl Hlt).
Defined.




Lemma Connect_then_Writes_witness :
  NewRedisList url.ParseAuthority jobs_conf = inl jobs_sink /\
  exists s',
    run (perform_all healthy
           (DoConnect :: map DoWrite [three_parts; three_parts])) (boot jobs_sink) =
      inr (None :: map (fun _ => None) [three_parts; three_parts], s') /\
    calls (trace s') =
      redis.Ping {| redis.id := 0; redis.opt := dial_options jobs_sink 2 |}
      :: map (rpush {| redis.id := 0; redis.opt := dial_options jobs_sink 2 |}
                    (Key jobs_conf))
             (flat_map types.parts [three_parts; three_parts]) /\
    client (this s') =
      Some {| redis.id := 0; redis.opt := dial_options jobs_sink 2 |} /\
    allocated s' = 1.
Proof.
  split; [reflexivity|].
  exact (Connect_then_Writes healthy url.ParseAuthority jobs_conf jobs_sink 2%Z
           [three_parts; three_parts] eq_refl eq_refl
           healthy_answers_ping healthy_acknowledging).
Defined.


Lemma redisDB_outcomes_witness :
  redisDB "/42" = inl 42%Z /\
  ((strconv.minInt <= 42 <= strconv.maxInt)%Z /\
   strconv.has_non_digit (drop 2 "/42") = false) /\
  redisDB "/4x2" = inr (Errorf "invalid Redis DB, can't parse '/4x2'") /\
  (1 < String.length "/4x2")%nat.
Proof.
  split; [reflexivity|]. split; [|split; [reflexivity|]].
  - destruct (proj1 (redisDB_outcomes "/42") 42%Z eq_refl)
      as [Hr [[Hlen _]|(_ & _ & Hd)]].
    + cbn in Hlen. lia.
    + split; [exact Hr | exact Hd].
  - exact (proj1 (proj2 (redisDB_outcomes "/4x2")
                        (Errorf "invalid Redis DB, can't parse '/4x2'") eq_refl)).
Defined.

Lemma disconnect_closes_once_witness :
  idle jobs_connected /\
  client (this jobs_connected) = Some jobs_client /\
  exists s',
    run (perform_all (drops_after 3 true) [DoDisconnect; DoDisconnect]) jobs_connected =
      inr ([option_map RedisError
              (drops_after 3 true (trace jobs_connected) (redis.Close jobs_client));
            None], s') /\
    calls (trace s') = (calls (trace jobs_connected) ++ [redis.Close jobs_client])%list /\
    log_lines (trace s') = log_lines (trace jobs_connected) /\
    allocated s' = allocated jobs_connected /\
    client (this s') = None.
Proof.
  split; [reflexivity|]. split; [reflexivity|].
  exact (disconnect_closes_once (drops_after 3 true) jobs_connected jobs_client
           eq_refl eq_refl).
Defined.

Lemma only_Connect_installs_a_client_witness :
  idle (boot jobs_sink) /\
  client (this (boot jobs_sink)) = None /\
  run (perform_all healthy
         [DoWrite three_parts; DoDisconnect; DoCloseAsync; DoWaitForClose 5;
          DoWrite three_parts])
      (boot jobs_sink) =
  inr ([Some ErrNotConnected; None; None; None; Some ErrNotConnected], boot jobs_sink).
Proof.
  split; [reflexivity|]. split; [reflexivity|].
  exact (only_Connect_installs_a_client healthy
           [DoWrite three_parts; DoDisconnect; DoCloseAsync; DoWaitForClose 5;
            DoWrite three_parts]
           (boot jobs_sink) eq_refl eq_refl eq_refl).
Defined.

(** A push is rejected, the caller connects again and writes: the second
    client carries the later commands, the first one is not used after
    its close. *)
Example recovery_scenario :
  exists s',
    run (perform_all (rejects_payload (list_byte_of_string "beta"))
           [DoConnect; DoWrite three_parts; DoWrite three_parts; DoConnect;
            DoWrite {| types.parts := [part_of "alpha"] |}])
        (boot jobs_sink) =
      inr ([None; Some ErrNotConnected; Some ErrNotConnected; None; None], s') /\
    map (fun q => redis.id (client_of q)) (calls (trace s')) = [0; 0; 0; 0; 1; 1] /\
    closed (trace s') = [0] /\
    option_map redis.id (client (this s')) = Some 1.
Proof.
  eexists. split; [vm_compute; reflexivity|].
  split; [|split]; vm_compute; reflexivity.
Qed.
